(** * MatPaginator: pagination state of [src/lib/paginator/paginator.ts]

    A shallow embedding of the [MatPaginator] class and of the part of the
    ECMAScript number semantics its methods rely on.

    Numbers.  A JavaScript [number] is modelled as an extended rational:
    [NaN], the two infinities, or a finite value carried as a canonical
    rational ([Qc], so that numeric equality is Leibniz equality).  The
    arithmetic is exact: binary64 rounding and the sign of zero are not
    represented.  On the integer values the paginator is specified for
    (below 2^53) products are exact and [Math.floor]/[Math.ceil] of a
    quotient agree with the exact ones, so the model and the engine coincide
    there.

    State.  The component instance is a record; every method is a function
    from record to record.  The [page] event emitter is the list of the
    events emitted so far, oldest first.  [ChangeDetectorRef.markForCheck]
    belongs to the rendering collaborator and touches no field of the
    component; it is not represented, and neither are the subscription to
    [MatPaginatorIntl] and the setters of the two presentation flags, which
    no method reads. *)

From Stdlib Require Import ZArith QArith Qcanon Qround.
From Stdlib Require Import List Bool Lia String.
From Stdlib Require Import Sorting.Sorted Sorting.Permutation.
Import ListNotations.

(** ** ECMAScript numbers *)

Module JS.

Inductive number : Type :=
| NaN : number
| Infinity (negative : bool) : number
| Fin (q : Qc) : number.

Definition ofZ (z : Z) : number := Fin (Q2Qc (inject_Z z)).

Definition isNaN (x : number) : bool :=
  match x with NaN => true | _ => false end.

(** Sign of a finite value; zero counts as positive. *)
Definition Qc_neg (q : Qc) : bool :=
  match (q ?= 0)%Qc with Lt => true | _ => false end.

Definition Qc_is0 (q : Qc) : bool :=
  match (q ?= 0)%Qc with Eq => true | _ => false end.

(** [x * y] *)
Definition mul (x y : number) : number :=
  match x, y with
  | NaN, _ | _, NaN => NaN
  | Infinity a, Infinity b => Infinity (xorb a b)
  | Infinity a, Fin q | Fin q, Infinity a =>
      if Qc_is0 q then NaN else Infinity (xorb a (Qc_neg q))
  | Fin p, Fin q => Fin (p * q)%Qc
  end.

(** [x / y] *)
Definition div (x y : number) : number :=
  match x, y with
  | NaN, _ | _, NaN => NaN
  | Infinity _, Infinity _ => NaN
  | Infinity a, Fin q => Infinity (xorb a (Qc_neg q))
  | Fin _, Infinity _ => Fin 0%Qc
  | Fin p, Fin q =>
      if Qc_is0 q
      then (if Qc_is0 p then NaN else Infinity (Qc_neg p))
      else Fin (p / q)%Qc
  end.

(** [x + y] *)
Definition add (x y : number) : number :=
  match x, y with
  | NaN, _ | _, NaN => NaN
  | Infinity a, Infinity b => if Bool.eqb a b then Infinity a else NaN
  | Infinity a, Fin _ | Fin _, Infinity a => Infinity a
  | Fin p, Fin q => Fin (p + q)%Qc
  end.

(** [- x] *)
Definition neg (x : number) : number :=
  match x with
  | NaN => NaN
  | Infinity a => Infinity (negb a)
  | Fin q => Fin (- q)%Qc
  end.

(** [x - y] *)
Definition sub (x y : number) : number := add x (neg y).

(** [Math.floor] and [Math.ceil] *)
Definition Math_floor (x : number) : number :=
  match x with
  | Fin q => ofZ (Qfloor q)
  | _ => x
  end.

Definition Math_ceil (x : number) : number :=
  match x with
  | Fin q => ofZ (Qceiling q)
  | _ => x
  end.

(** Relational comparison: [None] when an operand is [NaN]. *)
Definition compare (x y : number) : option comparison :=
  match x, y with
  | NaN, _ | _, NaN => None
  | Infinity a, Infinity b =>
      Some (if a then (if b then Eq else Lt) else (if b then Gt else Eq))
  | Infinity a, Fin _ => Some (if a then Lt else Gt)
  | Fin _, Infinity b => Some (if b then Gt else Lt)
  | Fin p, Fin q => Some (p ?= q)%Qc
  end.

(** [x < y] *)
Definition lt (x y : number) : bool :=
  match compare x y with Some Lt => true | _ => false end.

(** [x >= y] *)
Definition ge (x y : number) : bool :=
  match compare x y with Some Gt | Some Eq => true | _ => false end.

(** [x === y] on numbers *)
Definition strict_eq (x y : number) : bool :=
  match compare x y with Some Eq => true | _ => false end.

(** A possibly [undefined] number: the type of a field declared
    [number] without an initialiser. *)
Definition undefined : option number := None.

(** [ToNumber] of a possibly undefined number. *)
Definition ToNumber (v : option number) : number :=
  match v with Some x => x | None => NaN end.

(** [ToBoolean]: [undefined], [NaN] and [0] are falsy. *)
Definition truthy (x : number) : bool :=
  match x with
  | NaN => false
  | Infinity _ => true
  | Fin q => negb (Qc_is0 q)
  end.

Definition ToBoolean (v : option number) : bool :=
  match v with Some x => truthy x | None => false end.

(** [x || y] on numbers *)
Definition or_else (x y : number) : number :=
  if truthy x then x else y.

(** [v != n] (loose inequality) of a possibly undefined number and a
    number: [undefined] is loosely equal only to [null] and [undefined]. *)
Definition loose_neq (v : option number) (n : number) : bool :=
  match v with
  | None => true
  | Some x => negb (strict_eq x n)
  end.

(** [Array.prototype.indexOf]: the first index holding a strictly equal
    element, or [-1]. *)
Fixpoint indexOf_from (i : Z) (l : list number) (x : number) : Z :=
  match l with
  | [] => (-1)%Z
  | y :: l' => if strict_eq y x then i else indexOf_from (i + 1) l' x
  end.

Definition Array_indexOf (l : list number) (x : number) : Z :=
  indexOf_from 0 l x.

(** [Array.prototype.sort] with a comparison function, as a stable
    insertion sort.  A comparator result that is [NaN] counts as [+0],
    as [SortCompare] prescribes. *)
Section Sort.

Variable comparefn : number -> number -> number.

Definition sort_after (x y : number) : bool := lt (ofZ 0) (comparefn x y).

Fixpoint sort_insert (x : number) (l : list number) : list number :=
  match l with
  | [] => [x]
  | y :: l' => if sort_after x y then y :: sort_insert x l' else x :: l
  end.

Fixpoint Array_sort (l : list number) : list number :=
  match l with
  | [] => []
  | x :: l' => sort_insert x (Array_sort l')
  end.

End Sort.

(** Values reaching an [@Input()] property: the declared type is [number],
    yet a template binding may hand over a string, [null] or [undefined]. *)
Inductive value : Type :=
| VUndefined : value
| VNull : value
| VNum (n : number) : value
| VStr (s : string) : value.

(** The order of the extended number line, as propositions; [NaN] is not
    related to anything. *)
Inductive num_lt : number -> number -> Prop :=
| num_lt_fin : forall p q : Qc, (p < q)%Qc -> num_lt (Fin p) (Fin q)
| num_lt_below : forall q : Qc, num_lt (Infinity true) (Fin q)
| num_lt_above : forall q : Qc, num_lt (Fin q) (Infinity false)
| num_lt_ends : num_lt (Infinity true) (Infinity false).

Definition num_le (x y : number) : Prop :=
  num_lt x y \/ (x = y /\ x <> NaN).

(** A proper number. *)
Definition notNaN (x : number) : Prop := x <> NaN.

End JS.

Import JS.

(** ** The event object *)

Module PageEvent.

Record t : Type := mk {
  pageIndex : number;
  pageSize : option number;
  length : number
}.

End PageEvent.

(** Argument of the [pageSizeOptions] setter: an array, [null] or
    [undefined]. *)
Inductive array_value : Type :=
| AUndefined : array_value
| ANull : array_value
| AList (l : list value) : array_value.

(** ** The component *)

Module MatPaginator.

Section Component.

(** [Number] applied to a string (the [StringToNumber] operation of the
    language); [NaN] for a string that is not a numeric literal. *)
Variable StringToNumber : string -> number.

(** Modelled from the spec: [coerceNumberProperty] is imported from
    [@angular/cdk/coercion], whose source is not part of [src/].  The
    specification says that a malformed or non-numeric input is coerced to
    a defined fallback numeric value, [0], and never rejected; a numeric
    input is kept. *)
Definition coerceNumberProperty (v : value) : number :=
  match v with
  | VUndefined | VNull => ofZ 0
  | VNum n => if isNaN n then ofZ 0 else n
  | VStr s => let n := StringToNumber s in if isNaN n then ofZ 0 else n
  end.

(** The default page size if there is no page size and there are no
    provided page size options. *)
Definition DEFAULT_PAGE_SIZE : number := ofZ 50.

Record t : Type := mk {
  _initialized : bool;
  _pageIndex : number;
  _length : number;
  _pageSize : option number;
  _pageSizeOptions : list number;
  _hidePageSize : bool;
  _showFirstLastButtons : bool;
  _displayedPageSizeOptions : option (list number);
  page : list PageEvent.t
}.

(** Field assignments. *)
Definition with_initialized (s : t) (b : bool) : t :=
  mk b (_pageIndex s) (_length s) (_pageSize s) (_pageSizeOptions s)
     (_hidePageSize s) (_showFirstLastButtons s)
     (_displayedPageSizeOptions s) (page s).

Definition with_pageIndex (s : t) (n : number) : t :=
  mk (_initialized s) n (_length s) (_pageSize s) (_pageSizeOptions s)
     (_hidePageSize s) (_showFirstLastButtons s)
     (_displayedPageSizeOptions s) (page s).

Definition with_length (s : t) (n : number) : t :=
  mk (_initialized s) (_pageIndex s) n (_pageSize s) (_pageSizeOptions s)
     (_hidePageSize s) (_showFirstLastButtons s)
     (_displayedPageSizeOptions s) (page s).

Definition with_pageSize (s : t) (v : option number) : t :=
  mk (_initialized s) (_pageIndex s) (_length s) v (_pageSizeOptions s)
     (_hidePageSize s) (_showFirstLastButtons s)
     (_displayedPageSizeOptions s) (page s).

Definition with_pageSizeOptions (s : t) (l : list number) : t :=
  mk (_initialized s) (_pageIndex s) (_length s) (_pageSize s) l
     (_hidePageSize s) (_showFirstLastButtons s)
     (_displayedPageSizeOptions s) (page s).

Definition with_displayedPageSizeOptions (s : t) (d : option (list number))
  : t :=
  mk (_initialized s) (_pageIndex s) (_length s) (_pageSize s)
     (_pageSizeOptions s) (_hidePageSize s) (_showFirstLastButtons s)
     d (page s).

Definition with_page (s : t) (p : list PageEvent.t) : t :=
  mk (_initialized s) (_pageIndex s) (_length s) (_pageSize s)
     (_pageSizeOptions s) (_hidePageSize s) (_showFirstLastButtons s)
     (_displayedPageSizeOptions s) p.

(** The instance right after construction: [_initialized], [_pageSize]
    and [_displayedPageSizeOptions] have no initialiser. *)
Definition constructor : t :=
  mk false (ofZ 0) (ofZ 0) undefined [] false false None [].

(** Getters. *)
Definition pageIndex (s : t) : number := _pageIndex s.
Definition length (s : t) : number := _length s.
Definition pageSize (s : t) : option number := _pageSize s.
Definition pageSizeOptions (s : t) : list number := _pageSizeOptions s.

(** The comparison function [(a, b) => a - b]. *)
Definition numeric_order (a b : number) : number := sub a b.

(** Updates the list of page size options to display to the user. *)
Definition _updateDisplayedPageSizeOptions (s : t) : t :=
  if negb (_initialized s) then s else
  let s1 :=
    if negb (ToBoolean (pageSize s))
    then with_pageSize s
           (Some (match pageSizeOptions s with
                  | [] => DEFAULT_PAGE_SIZE
                  | first :: _ => first
                  end))
    else s in
  match pageSize s1 with
  | None => s1 (* not taken: a falsy page size has just been replaced *)
  | Some size =>
      let d := pageSizeOptions s1 in
      let d := if (Array_indexOf d size =? -1)%Z then d ++ [size] else d in
      with_displayedPageSizeOptions s1 (Some (Array_sort numeric_order d))
  end.

(** Setters. *)
Definition set_pageIndex (value : value) (s : t) : t :=
  with_pageIndex s (coerceNumberProperty value).

Definition set_length (value : value) (s : t) : t :=
  with_length s (coerceNumberProperty value).

Definition set_pageSize (value : value) (s : t) : t :=
  _updateDisplayedPageSizeOptions
    (with_pageSize s (Some (coerceNumberProperty value))).

Definition set_pageSizeOptions (value : array_value) (s : t) : t :=
  let arr := match value with
             | AUndefined | ANull => []
             | AList l => l
             end in
  _updateDisplayedPageSizeOptions
    (with_pageSizeOptions s (map coerceNumberProperty arr)).

Definition ngOnInit (s : t) : t :=
  _updateDisplayedPageSizeOptions (with_initialized s true).

(** Emits an event notifying that a change of the paginator's properties
    has been triggered. *)
Definition _emitPageEvent (s : t) : t :=
  with_page s
    (page s ++ [PageEvent.mk (pageIndex s) (pageSize s) (length s)]).

(** Calculate the number of pages. *)
Definition getNumberOfPages (s : t) : number :=
  sub (Math_ceil (div (length s) (ToNumber (pageSize s)))) (ofZ 1).

(** Whether there is a previous page. *)
Definition hasPreviousPage (s : t) : bool :=
  ge (pageIndex s) (ofZ 1) && loose_neq (pageSize s) (ofZ 0).

(** Whether there is a next page. *)
Definition hasNextPage (s : t) : bool :=
  let numberOfPages := getNumberOfPages s in
  lt (pageIndex s) numberOfPages && loose_neq (pageSize s) (ofZ 0).

(** Advances to the next page if it exists. *)
Definition nextPage (s : t) : t :=
  if negb (hasNextPage s) then s else
  let s := set_pageIndex (VNum (add (pageIndex s) (ofZ 1))) s in
  _emitPageEvent s.

(** Move back to the previous page if it exists. *)
Definition previousPage (s : t) : t :=
  if negb (hasPreviousPage s) then s else
  let s := set_pageIndex (VNum (sub (pageIndex s) (ofZ 1))) s in
  _emitPageEvent s.

(** Move to the first page if not already there. *)
Definition firstPage (s : t) : t :=
  if negb (hasPreviousPage s) then s else
  let s := set_pageIndex (VNum (ofZ 0)) s in
  _emitPageEvent s.

(** Move to the last page if not already there. *)
Definition lastPage (s : t) : t :=
  if negb (hasNextPage s) then s else
  let s := set_pageIndex (VNum (getNumberOfPages s)) s in
  _emitPageEvent s.

(** Changes the page size so that the first item displayed on the page
    will still be displayed using the new page size. *)
Definition _changePageSize (pageSize' : number) (s : t) : t :=
  let startIndex := mul (pageIndex s) (ToNumber (pageSize s)) in
  let s :=
    set_pageIndex
      (VNum (or_else (Math_floor (div startIndex pageSize')) (ofZ 0))) s in
  let s := set_pageSize (VNum pageSize') s in
  _emitPageEvent s.

(** *** Vocabulary of the specification *)

(** The component's own mutating operations. *)
Inductive operation : Type :=
| OpNextPage : operation
| OpPreviousPage : operation
| OpFirstPage : operation
| OpLastPage : operation
| OpChangePageSize (n : number) : operation.

Definition run (o : operation) (s : t) : t :=
  match o with
  | OpNextPage => nextPage s
  | OpPreviousPage => previousPage s
  | OpFirstPage => firstPage s
  | OpLastPage => lastPage s
  | OpChangePageSize n => _changePageSize n s
  end.

(** Everything the host can do with an instance. *)
Inductive input : Type :=
| SetPageIndex (v : value) : input
| SetLength (v : value) : input
| SetPageSize (v : value) : input
| SetPageSizeOptions (a : array_value) : input
| NgOnInit : input
| Operation (o : operation) : input.

Definition receive (i : input) (s : t) : t :=
  match i with
  | SetPageIndex v => set_pageIndex v s
  | SetLength v => set_length v s
  | SetPageSize v => set_pageSize v s
  | SetPageSizeOptions a => set_pageSizeOptions a s
  | NgOnInit => ngOnInit s
  | Operation o => run o s
  end.

(** The states an instance can be in: the constructed one and whatever a
    sequence of inputs makes of it. *)
Inductive reachable : t -> Prop :=
| reachable_new : reachable constructor
| reachable_step : forall (s : t) (i : input),
    reachable s -> reachable (receive i s).

(** The payload describing a state. *)
Definition snapshot (s : t) : PageEvent.t :=
  PageEvent.mk (pageIndex s) (pageSize s) (length s).

(** The page index lies between the first and the last page. *)
Definition inRange (s : t) : Prop :=
  num_le (ofZ 0) (pageIndex s) /\ num_le (pageIndex s) (getNumberOfPages s).

(** The options shown for a list of configured options and a page size:
    the options, with the page size appended unless some option is
    already strictly equal to it, in ascending order. *)
Definition displayed_for (options : list number) (size : number)
  : list number :=
  Array_sort numeric_order
    (if (Array_indexOf options size =? -1)%Z
     then options ++ [size] else options).

(** The page size in force once the derivation has run: the current one
    if it is truthy, else the first option, else the default. *)
Definition effective_pageSize (s : t) : number :=
  let fallback := hd DEFAULT_PAGE_SIZE (pageSizeOptions s) in
  match pageSize s with
  | Some p => if truthy p then p else fallback
  | None => fallback
  end.

(** The state [s] moved to page [i]: page index [i], one more event
    describing the new page, every other field as in [s]. *)
Definition moved_to (s : t) (i : number) : t :=
  mk (_initialized s) i (_length s) (_pageSize s) (_pageSizeOptions s)
     (_hidePageSize s) (_showFirstLastButtons s)
     (_displayedPageSizeOptions s)
     (page s ++ [PageEvent.mk i (_pageSize s) (_length s)]).

(** What every state an instance can be in satisfies: the options and
    the page size hold proper numbers, and the displayed options are
    absent before initialisation and, after it, the ones derived from the
    current options and the current page size. *)
Definition well_formed (s : t) : Prop :=
  Forall notNaN (pageSizeOptions s) /\
  (forall p : number, pageSize s = Some p -> notNaN p) /\
  match _initialized s with
  | true =>
      exists size : number,
        pageSize s = Some size /\
        _displayedPageSizeOptions s =
          Some (displayed_for (pageSizeOptions s) size)
  | false => _displayedPageSizeOptions s = None
  end.

(** The page size is set, and it is falsy only when it is the first of
    the options (the default, 50, is truthy). *)
Definition pageSize_resolved (s : t) : Prop :=
  exists size : number,
    pageSize s = Some size /\
    (truthy size = false ->
     exists rest : list number, pageSizeOptions s = size :: rest).

(** A state given by integers: page index, length, page size and options,
    with the flags off, nothing displayed yet and nothing emitted. *)
Definition state_of (initialized : bool) (index len : Z) (size : option Z)
  (options : list Z) : t :=
  mk initialized (ofZ index) (ofZ len) (option_map ofZ size)
     (map ofZ options) false false None [].

End Component.

(** A reading of strings under which no string is numeric; any reading
    serves where only numbers are passed. *)
Definition no_numeric_string : string -> number := fun _ => NaN.

(** An instance offered the sizes 25, 10 and 50, set to size 10 and then
    initialised. *)
Definition offered_sizes : t :=
  receive no_numeric_string NgOnInit
    (receive no_numeric_string (SetPageSize (VNum (ofZ 10)))
       (receive no_numeric_string
          (SetPageSizeOptions
             (AList [VNum (ofZ 25); VNum (ofZ 10); VNum (ofZ 50)]))
          constructor)).

(** An initialised instance given a page size, then a length, then a page
    index by its host. *)
Definition configured (index len size : number) : t :=
  set_pageIndex no_numeric_string (VNum index)
    (set_length no_numeric_string (VNum len)
       (set_pageSize no_numeric_string (VNum size) (ngOnInit constructor))).

End MatPaginator.

(** ** Facts about numbers *)

Module JSFacts.

Lemma Qc_is0_true (q : Qc) : Qc_is0 q = true <-> q = 0%Qc.
Proof.
  unfold Qc_is0. rewrite (Qceq_alt q 0).
  destruct (q ?= 0)%Qc; split; congruence.
Qed.

Lemma Qc_is0_false (q : Qc) : Qc_is0 q = false <-> q <> 0%Qc.
Proof.
  rewrite <- Qc_is0_true. destruct (Qc_is0 q); split; congruence.
Qed.

Lemma ofZ_inj (a b : Z) : ofZ a = ofZ b -> a = b.
Proof.
  unfold ofZ. intro H. assert (E : Q2Qc (inject_Z a) = Q2Qc (inject_Z b))
    by congruence.
  apply Q2Qc_eq_iff in E. now apply inject_Z_injective.
Qed.

Lemma compare_fin_refl (p : Qc) : (p ?= p)%Qc = Eq.
Proof. apply Qceq_alt. reflexivity. Qed.

Lemma ofZ_add (a b : Z) : add (ofZ a) (ofZ b) = ofZ (a + b).
Proof.
  unfold add, ofZ. f_equal. apply Qc_is_canon. unfold Qcplus.
  cbn [this Q2Qc]. rewrite !Qred_correct, inject_Z_plus. reflexivity.
Qed.

Lemma ofZ_neg (a : Z) : neg (ofZ a) = ofZ (- a).
Proof.
  unfold neg, ofZ. f_equal. apply Qc_is_canon. unfold Qcopp.
  cbn [this Q2Qc]. rewrite !Qred_correct, inject_Z_opp. reflexivity.
Qed.

Lemma ofZ_sub (a b : Z) : sub (ofZ a) (ofZ b) = ofZ (a - b).
Proof. unfold sub. now rewrite ofZ_neg, ofZ_add. Qed.

Lemma ofZ_lt (a b : Z) : num_lt (ofZ a) (ofZ b) <-> (a < b)%Z.
Proof.
  unfold ofZ. split.
  - intro H. inversion H as [p q L| | |]; subst. unfold Qclt in L.
    cbn [this Q2Qc] in L. rewrite !Qred_correct in L.
    now rewrite Zlt_Qlt.
  - intro H. constructor. unfold Qclt. cbn [this Q2Qc].
    rewrite !Qred_correct. now rewrite <- Zlt_Qlt.
Qed.

Lemma ofZ_le (a b : Z) : num_le (ofZ a) (ofZ b) <-> (a <= b)%Z.
Proof.
  unfold num_le. rewrite ofZ_lt. split.
  - intros [H | [H _]]; [lia|]. apply ofZ_inj in H. lia.
  - intro H. destruct (Z.eq_dec a b) as [-> | N].
    + right. split; [reflexivity | discriminate].
    + left. lia.
Qed.

Lemma lt_spec (x y : number) : lt x y = true <-> num_lt x y.
Proof.
  split.
  - destruct x as [|a|p], y as [|b|q]; unfold lt, compare;
      try discriminate.
    + destruct a, b; try discriminate. intros _. constructor.
    + destruct a; try discriminate. intros _. constructor.
    + destruct b; try discriminate. intros _. constructor.
    + intro H. constructor. apply Qclt_alt.
      destruct (p ?= q)%Qc; congruence.
  - intro H. destruct H; try reflexivity.
    assert (E : (p ?= q)%Qc = Lt) by (apply Qclt_alt; exact H).
    unfold lt, compare. rewrite E. reflexivity.
Qed.

Lemma strict_eq_spec (x y : number) :
  strict_eq x y = true <-> x = y /\ x <> NaN.
Proof.
  split.
  - destruct x as [|a|p], y as [|b|q]; unfold strict_eq, compare;
      try discriminate.
    + destruct a, b; try discriminate; intros _; split; congruence.
    + destruct a; discriminate.
    + destruct b; discriminate.
    + intro H. assert (E : p = q).
      { apply Qceq_alt. destruct (p ?= q)%Qc; congruence. }
      subst q. split; congruence.
  - intros [E N]. subst y. destruct x as [|a|p].
    + congruence.
    + destruct a; reflexivity.
    + unfold strict_eq, compare. rewrite compare_fin_refl. reflexivity.
Qed.

Lemma ge_spec (x y : number) : ge x y = true <-> num_le y x.
Proof.
  unfold num_le. split.
  - destruct x as [|a|p], y as [|b|q]; unfold ge, compare;
      try discriminate.
    + destruct a, b; try discriminate; intros _.
      * right. split; congruence.
      * left. constructor.
      * right. split; congruence.
    + destruct a; try discriminate. intros _. left. constructor.
    + destruct b; try discriminate. intros _. left. constructor.
    + destruct (p ?= q)%Qc eqn:E; try discriminate; intros _.
      * apply Qceq_alt in E. subst q. right. split; congruence.
      * left. constructor. apply Qcgt_alt in E. exact E.
  - intros [H | [E N]].
    + destruct H; try reflexivity.
      assert (G : (q ?= p)%Qc = Gt) by (apply Qcgt_alt; exact H).
      unfold ge, compare. rewrite G. reflexivity.
    + subst x. destruct y as [|a|p].
      * congruence.
      * destruct a; reflexivity.
      * unfold ge, compare. rewrite compare_fin_refl. reflexivity.
Qed.

Lemma num_lt_irrefl (x : number) : ~ num_lt x x.
Proof.
  intro H. inversion H; subst. eapply Qclt_not_eq; eauto.
Qed.

Lemma num_lt_trans (x y z : number) : num_lt x y -> num_lt y z -> num_lt x z.
Proof.
  intros H1 H2. destruct H1; inversion H2; subst; try constructor.
  eapply Qclt_trans; eauto.
Qed.

Lemma num_lt_not_NaN (x y : number) : num_lt x y -> x <> NaN /\ y <> NaN.
Proof. intro H. destruct H; split; congruence. Qed.

Lemma num_le_refl (x : number) : x <> NaN -> num_le x x.
Proof. intro H. right. split; [reflexivity | exact H]. Qed.

Lemma num_le_trans (x y z : number) : num_le x y -> num_le y z -> num_le x z.
Proof.
  intros [H1 | [E1 N1]] [H2 | [E2 N2]].
  - left. eapply num_lt_trans; eauto.
  - subst z. left. exact H1.
  - subst y. left. exact H2.
  - subst. right. split; [reflexivity | exact N1].
Qed.

Lemma num_le_fin (p q : Qc) : num_le (Fin p) (Fin q) <-> (p <= q)%Qc.
Proof.
  split.
  - intros [H | [E _]].
    + inversion H; subst. now apply Qclt_le_weak.
    + injection E as E. subst q. apply Qcle_refl.
  - intro H. destruct (Qcle_lt_or_eq _ _ H) as [L | E].
    + left. now constructor.
    + subst q. right. split; congruence.
Qed.

Lemma num_lt_fin (p q : Qc) : num_lt (Fin p) (Fin q) <-> (p < q)%Qc.
Proof.
  split; intro H.
  - now inversion H.
  - now constructor.
Qed.

(** On numbers that are not [NaN] the order is total. *)
Lemma num_lt_total (x y : number) :
  x <> NaN -> y <> NaN -> num_lt x y \/ num_le y x.
Proof.
  intros Nx Ny. destruct x as [|a|p], y as [|b|q]; try congruence.
  - destruct a, b.
    + right. apply num_le_refl. congruence.
    + left. constructor.
    + right. left. constructor.
    + right. apply num_le_refl. congruence.
  - destruct a.
    + left. constructor.
    + right. left. constructor.
  - destruct b.
    + right. left. constructor.
    + left. constructor.
  - destruct (Qclt_le_dec p q) as [L | G].
    + left. now constructor.
    + right. now apply num_le_fin.
Qed.

(** *** The comparator [a - b] and the sort *)

Lemma Qc_sub_pos (p q : Qc) : (0 < p + - q)%Qc <-> (q < p)%Qc.
Proof. symmetry. apply Qclt_minus_iff. Qed.

Lemma sort_after_numeric (x y : number) :
  notNaN x -> notNaN y ->
  (sort_after MatPaginator.numeric_order x y = true <-> num_lt y x).
Proof.
  unfold notNaN, sort_after, MatPaginator.numeric_order. intros Nx Ny.
  rewrite lt_spec.
  destruct x as [|a|p], y as [|b|q]; try congruence; unfold sub, neg, add.
  - destruct a, b; cbn [negb Bool.eqb]; split; intro H; inversion H;
      constructor.
  - destruct a; split; intro H; inversion H; constructor.
  - destruct b; cbn [negb]; split; intro H; inversion H; constructor.
  - unfold ofZ. change (Q2Qc (inject_Z 0)) with 0%Qc.
    rewrite !num_lt_fin. apply Qc_sub_pos.
Qed.

Lemma sort_insert_perm (cmp : number -> number -> number) (x : number)
  (l : list number) : Permutation (sort_insert cmp x l) (x :: l).
Proof.
  induction l as [|y l IH]; cbn [sort_insert].
  - apply Permutation_refl.
  - destruct (sort_after cmp x y).
    + apply perm_trans with (y :: x :: l).
      * now apply perm_skip.
      * apply perm_swap.
    + apply Permutation_refl.
Qed.

Lemma Array_sort_perm (cmp : number -> number -> number) (l : list number) :
  Permutation (Array_sort cmp l) l.
Proof.
  induction l as [|x l IH]; cbn [Array_sort].
  - apply perm_nil.
  - apply perm_trans with (x :: Array_sort cmp l).
    + apply sort_insert_perm.
    + now apply perm_skip.
Qed.

Lemma Array_sort_In (cmp : number -> number -> number) (l : list number)
  (x : number) : In x (Array_sort cmp l) <-> In x l.
Proof.
  split; apply Permutation_in.
  - apply Array_sort_perm.
  - apply Permutation_sym, Array_sort_perm.
Qed.

Lemma sort_insert_HdRel (x a : number) (l : list number) :
  notNaN x -> notNaN a -> Forall notNaN l ->
  num_le a x -> HdRel num_le a l ->
  HdRel num_le a (sort_insert MatPaginator.numeric_order x l).
Proof.
  intros Nx Na Nl Hax Hd. destruct l as [|y l]; cbn [sort_insert].
  - now constructor.
  - destruct (sort_after MatPaginator.numeric_order x y).
    + constructor. now inversion Hd.
    + now constructor.
Qed.

Lemma sort_insert_sorted (x : number) (l : list number) :
  notNaN x -> Forall notNaN l -> Sorted num_le l ->
  Sorted num_le (sort_insert MatPaginator.numeric_order x l).
Proof.
  intros Nx Nl Hs. induction Hs as [|y l Hs IH Hd]; cbn [sort_insert].
  - repeat constructor.
  - inversion Nl as [|? ? Ny Nl']; subst.
    destruct (sort_after MatPaginator.numeric_order x y) eqn:E.
    + apply sort_after_numeric in E; trivial.
      constructor.
      * now apply IH.
      * apply sort_insert_HdRel; trivial. now left.
    + constructor.
      * now constructor.
      * constructor. destruct (num_lt_total x y Nx Ny) as [L | G]; trivial.
        -- now left.
        -- destruct G as [G | [G _]].
           ++ apply sort_after_numeric in G; trivial. congruence.
           ++ subst y. now apply num_le_refl.
Qed.

Lemma Array_sort_notNaN (cmp : number -> number -> number)
  (l : list number) : Forall notNaN l -> Forall notNaN (Array_sort cmp l).
Proof.
  intro H. apply Forall_forall. intros x Hx.
  apply Array_sort_In in Hx. revert x Hx. now apply Forall_forall.
Qed.

Lemma Array_sort_sorted (l : list number) :
  Forall notNaN l ->
  Sorted num_le (Array_sort MatPaginator.numeric_order l).
Proof.
  induction l as [|x l IH]; intro H; cbn [Array_sort].
  - constructor.
  - inversion H; subst. apply sort_insert_sorted; trivial.
    + now apply Array_sort_notNaN.
    + now apply IH.
Qed.

Lemma indexOf_from_In (i : Z) (l : list number) (x : number) :
  (0 <= i)%Z -> (indexOf_from i l x <> -1)%Z -> In x l.
Proof.
  revert i. induction l as [|y l IH]; intros i Hi; cbn [indexOf_from].
  - congruence.
  - destruct (strict_eq y x) eqn:E.
    + intros _. apply strict_eq_spec in E. left. tauto.
    + intro H. right. apply (IH (i + 1)%Z); [lia | exact H].
Qed.

End JSFacts.

(** ** Properties of the component *)

Import JSFacts.
Import MatPaginator.

Section PaginatorProperties.

Variable StringToNumber : string -> number.

(** *** Coercion *)

Lemma coerce_notNaN (v : value) :
  notNaN (coerceNumberProperty StringToNumber v).
Proof.
  unfold notNaN, coerceNumberProperty, ofZ.
  destruct v as [| |n|str]; try discriminate.
  - destruct n; simpl; discriminate.
  - destruct (StringToNumber str); simpl; discriminate.
Qed.

Lemma coerce_number (n : number) :
  notNaN n -> coerceNumberProperty StringToNumber (VNum n) = n.
Proof. unfold notNaN. destruct n; simpl; congruence. Qed.

(** *** The derivation of the displayed options *)

Lemma update_uninitialized (s : t) :
  _initialized s = false -> _updateDisplayedPageSizeOptions s = s.
Proof.
  intro H. unfold _updateDisplayedPageSizeOptions. now rewrite H.
Qed.

Lemma update_initialized (s : t) :
  _initialized s = true ->
  _updateDisplayedPageSizeOptions s =
  mk true (_pageIndex s) (_length s) (Some (effective_pageSize s))
     (_pageSizeOptions s) (_hidePageSize s) (_showFirstLastButtons s)
     (Some (displayed_for (_pageSizeOptions s) (effective_pageSize s)))
     (page s).
Proof.
  intro H. destruct s as [ini idx len size opts hide fl disp evs].
  cbn [_initialized] in H. subst ini.
  unfold _updateDisplayedPageSizeOptions, effective_pageSize, displayed_for,
    pageSize, pageSizeOptions.
  cbn [_initialized negb _pageSize _pageSizeOptions ToBoolean].
  destruct size as [p|]; cbn [ToBoolean negb].
  - destruct (truthy p); cbn [negb]; [reflexivity|].
    destruct opts; reflexivity.
  - destruct opts; reflexivity.
Qed.

Lemma update_frame (s : t) :
  let s' := _updateDisplayedPageSizeOptions s in
  _initialized s' = _initialized s /\ _pageIndex s' = _pageIndex s /\
  _length s' = _length s /\ _pageSizeOptions s' = _pageSizeOptions s /\
  _hidePageSize s' = _hidePageSize s /\
  _showFirstLastButtons s' = _showFirstLastButtons s /\ page s' = page s.
Proof.
  cbv zeta. destruct (_initialized s) eqn:E.
  - rewrite (update_initialized s E). cbn. repeat split.
  - rewrite (update_uninitialized s E). repeat split. exact E.
Qed.

(** *** Queries *)

Lemma loose_neq_zero (v : option number) :
  loose_neq v (ofZ 0) = true <-> v <> Some (ofZ 0).
Proof.
  destruct v as [x|]; cbn [loose_neq].
  - rewrite negb_true_iff. split.
    + intros H E. injection E as E. subst x.
      assert (T : strict_eq (ofZ 0) (ofZ 0) = true)
        by (apply strict_eq_spec; split; [reflexivity | discriminate]).
      congruence.
    + intro H. destruct (strict_eq x (ofZ 0)) eqn:E; trivial.
      apply strict_eq_spec in E. destruct E as [E _]. congruence.
  - split; [discriminate | reflexivity].
Qed.

Lemma hasPreviousPage_iff (s : t) :
  hasPreviousPage s = true <->
  num_le (ofZ 1) (pageIndex s) /\ pageSize s <> Some (ofZ 0).
Proof.
  unfold hasPreviousPage.
  now rewrite andb_true_iff, ge_spec, loose_neq_zero.
Qed.

Lemma hasNextPage_iff (s : t) :
  hasNextPage s = true <->
  num_lt (pageIndex s) (getNumberOfPages s) /\ pageSize s <> Some (ofZ 0).
Proof.
  unfold hasNextPage. cbv zeta.
  now rewrite andb_true_iff, lt_spec, loose_neq_zero.
Qed.

Lemma hasPreviousPage_disabled (s : t) :
  pageSize s = Some (ofZ 0) -> hasPreviousPage s = false.
Proof.
  intro Z. destruct (hasPreviousPage s) eqn:E; trivial.
  apply hasPreviousPage_iff in E. destruct E as [_ NZ]. contradiction.
Qed.

Lemma hasNextPage_disabled (s : t) :
  pageSize s = Some (ofZ 0) -> hasNextPage s = false.
Proof.
  intro Z. destruct (hasNextPage s) eqn:E; trivial.
  apply hasNextPage_iff in E. destruct E as [_ NZ]. contradiction.
Qed.

(** C3.  [hasPreviousPage()] is true exactly when [pageIndex >= 1] and
    [pageSize] is not zero; [hasNextPage()] is true exactly when
    [pageIndex < getNumberOfPages()] and [pageSize] is not zero.  Both are
    total functions (no division error can arise) and both answer [false]
    when [pageSize] is zero. *)
Theorem hasPage_spec (s : t) :
  (hasPreviousPage s = true <->
     num_le (ofZ 1) (pageIndex s) /\ pageSize s <> Some (ofZ 0)) /\
  (hasNextPage s = true <->
     num_lt (pageIndex s) (getNumberOfPages s) /\
     pageSize s <> Some (ofZ 0)) /\
  (pageSize s = Some (ofZ 0) ->
     hasPreviousPage s = false /\ hasNextPage s = false).
Proof.
  split; [apply hasPreviousPage_iff | split; [apply hasNextPage_iff |]].
  intro Z. split.
  - now apply hasPreviousPage_disabled.
  - now apply hasNextPage_disabled.
Qed.

(** *** Navigation *)

Lemma add_notNaN_fin (x : number) (q : Qc) :
  notNaN x -> notNaN (add x (Fin q)).
Proof. unfold notNaN. destruct x; simpl; congruence. Qed.

Lemma sub_notNaN_fin (x : number) (q : Qc) :
  notNaN x -> notNaN (sub x (Fin q)).
Proof. unfold notNaN. destruct x; simpl; congruence. Qed.

Lemma nextPage_moves (s : t) :
  hasNextPage s = true ->
  nextPage StringToNumber s = moved_to s (add (pageIndex s) (ofZ 1)).
Proof.
  intro H. unfold nextPage. rewrite H. cbn [negb]. unfold set_pageIndex.
  rewrite coerce_number; [reflexivity|].
  apply add_notNaN_fin. apply hasNextPage_iff in H. destruct H as [H _].
  apply (num_lt_not_NaN _ _ H).
Qed.

Lemma previousPage_moves (s : t) :
  hasPreviousPage s = true ->
  previousPage StringToNumber s = moved_to s (sub (pageIndex s) (ofZ 1)).
Proof.
  intro H. unfold previousPage. rewrite H. cbn [negb]. unfold set_pageIndex.
  rewrite coerce_number; [reflexivity|].
  apply sub_notNaN_fin. apply hasPreviousPage_iff in H. destruct H as [H _].
  destruct H as [H | [H _]].
  - apply (num_lt_not_NaN _ _ H).
  - rewrite <- H. discriminate.
Qed.

Lemma firstPage_moves (s : t) :
  hasPreviousPage s = true ->
  firstPage StringToNumber s = moved_to s (ofZ 0).
Proof.
  intro H. unfold firstPage. rewrite H. reflexivity.
Qed.

Lemma lastPage_moves (s : t) :
  hasNextPage s = true ->
  lastPage StringToNumber s = moved_to s (getNumberOfPages s).
Proof.
  intro H. unfold lastPage. rewrite H. cbn [negb]. unfold set_pageIndex.
  rewrite coerce_number; [reflexivity|].
  apply hasNextPage_iff in H. destruct H as [H _].
  apply (num_lt_not_NaN _ _ H).
Qed.


(** *** Direct assignment *)

(** C7.  Assigning [pageIndex] or [length] stores the coerced value in
    that field and touches nothing else: no event is emitted, the page
    size, the options and the displayed options stay as they are, and
    the page index is not checked against the number of pages (a number
    is stored as it is, whatever the range). *)
Theorem direct_assignment_frame (s : t) (v : value) :
  set_pageIndex StringToNumber v s =
    mk (_initialized s) (coerceNumberProperty StringToNumber v) (_length s)
       (_pageSize s) (_pageSizeOptions s) (_hidePageSize s)
       (_showFirstLastButtons s) (_displayedPageSizeOptions s) (page s) /\
  set_length StringToNumber v s =
    mk (_initialized s) (_pageIndex s) (coerceNumberProperty StringToNumber v)
       (_pageSize s) (_pageSizeOptions s) (_hidePageSize s)
       (_showFirstLastButtons s) (_displayedPageSizeOptions s) (page s) /\
  (forall n : number, notNaN n ->
     pageIndex (set_pageIndex StringToNumber (VNum n) s) = n /\
     length (set_length StringToNumber (VNum n) s) = n /\
     pageIndex (set_length StringToNumber (VNum n) s) = pageIndex s) /\
  page (set_pageIndex StringToNumber v s) = page s /\
  page (set_length StringToNumber v s) = page s.
Proof.
  repeat apply conj; try reflexivity.
  intros n Hn. unfold set_pageIndex, set_length.
  cbn [with_pageIndex with_length pageIndex length _pageIndex _length].
  rewrite (coerce_number n Hn). now repeat split.
Qed.

(** *** Notifications *)

Lemma snapshot_moved_to (s : t) (i : number) :
  page (moved_to s i) = page s ++ [snapshot (moved_to s i)].
Proof. reflexivity. Qed.

Lemma changePageSize_emits (n : number) (s : t) :
  page (_changePageSize StringToNumber n s) =
  page s ++ [snapshot (_changePageSize StringToNumber n s)].
Proof.
  unfold _changePageSize. cbv zeta.
  set (s1 := set_pageIndex StringToNumber _ s).
  set (s2 := set_pageSize StringToNumber (VNum n) s1).
  assert (E : page s2 = page s).
  { unfold s2, set_pageSize.
    destruct (update_frame
      (with_pageSize s1 (Some (coerceNumberProperty StringToNumber (VNum n)))))
      as (_ & _ & _ & _ & _ & _ & P).
    rewrite P. reflexivity. }
  unfold _emitPageEvent, snapshot. cbn [with_page page pageIndex pageSize
    length _pageIndex _pageSize _length].
  fold (page s2). now rewrite E.
Qed.

(** C8.  An operation of the component that changes anything emits
    exactly one event, and the event is the snapshot
    [{pageIndex, pageSize, length}] of the state the operation ends in. *)
Theorem notification_spec (o : operation) (s : t) :
  run StringToNumber o s <> s ->
  page (run StringToNumber o s) =
  page s ++ [snapshot (run StringToNumber o s)].
Proof.
  intro Changed. destruct o as [ | | | | n]; cbn [run] in *.
  - destruct (hasNextPage s) eqn:E.
    + rewrite (nextPage_moves s E). apply snapshot_moved_to.
    + elim Changed. unfold nextPage. now rewrite E.
  - destruct (hasPreviousPage s) eqn:E.
    + rewrite (previousPage_moves s E). apply snapshot_moved_to.
    + elim Changed. unfold previousPage. now rewrite E.
  - destruct (hasPreviousPage s) eqn:E.
    + rewrite (firstPage_moves s E). apply snapshot_moved_to.
    + elim Changed. unfold firstPage. now rewrite E.
  - destruct (hasNextPage s) eqn:E.
    + rewrite (lastPage_moves s E). apply snapshot_moved_to.
    + elim Changed. unfold lastPage. now rewrite E.
  - apply changePageSize_emits.
Qed.

(** *** Page size options *)

Lemma set_pageSizeOptions_options (a : array_value) (s : t) :
  pageSizeOptions (set_pageSizeOptions StringToNumber a s) =
  map (coerceNumberProperty StringToNumber)
    (match a with AList l => l | _ => [] end).
Proof.
  unfold set_pageSizeOptions, pageSizeOptions.
  destruct (update_frame (with_pageSizeOptions s
    (map (coerceNumberProperty StringToNumber)
       match a with AUndefined | ANull => [] | AList l => l end)))
    as (_ & _ & _ & E & _).
  rewrite E. destruct a; reflexivity.
Qed.

(** C10.  Assigning [null] or [undefined] to [pageSizeOptions] leaves the
    empty list; assigning a list leaves the list of its elements, each
    coerced on its own.  Whatever was assigned, every element read back is
    a proper number: an element that is not numeric ([undefined], [null],
    [NaN], a string that does not read as a number) has become the
    fallback [0], and a proper number is kept. *)
Theorem pageSizeOptions_assignment (s : t) :
  pageSizeOptions (set_pageSizeOptions StringToNumber AUndefined s) = [] /\
  pageSizeOptions (set_pageSizeOptions StringToNumber ANull s) = [] /\
  (forall l : list value,
     pageSizeOptions (set_pageSizeOptions StringToNumber (AList l) s) =
     map (coerceNumberProperty StringToNumber) l) /\
  (forall a : array_value,
     Forall notNaN
       (pageSizeOptions (set_pageSizeOptions StringToNumber a s))) /\
  coerceNumberProperty StringToNumber VUndefined = ofZ 0 /\
  coerceNumberProperty StringToNumber VNull = ofZ 0 /\
  coerceNumberProperty StringToNumber (VNum NaN) = ofZ 0 /\
  (forall str : string, StringToNumber str = NaN ->
     coerceNumberProperty StringToNumber (VStr str) = ofZ 0) /\
  (forall n : number, notNaN n ->
     coerceNumberProperty StringToNumber (VNum n) = n).
Proof.
  repeat apply conj; try reflexivity.
  - apply set_pageSizeOptions_options.
  - apply set_pageSizeOptions_options.
  - intro l. apply set_pageSizeOptions_options.
  - intro a. rewrite set_pageSizeOptions_options. apply Forall_forall.
    intros x Hx. apply in_map_iff in Hx. destruct Hx as (v & <- & _).
    apply coerce_notNaN.
  - intros str E. cbn [coerceNumberProperty]. rewrite E. reflexivity.
  - apply coerce_number.
Qed.

(** *** Initialisation *)

Lemma effective_pageSize_falsy (s : t) :
  pageSize s = undefined \/ pageSize s = Some (ofZ 0) ->
  effective_pageSize s = hd DEFAULT_PAGE_SIZE (pageSizeOptions s).
Proof.
  unfold effective_pageSize. intros [E | E]; rewrite E; reflexivity.
Qed.

Lemma ngOnInit_state (s : t) :
  ngOnInit s =
  mk true (_pageIndex s) (_length s) (Some (effective_pageSize s))
     (_pageSizeOptions s) (_hidePageSize s) (_showFirstLastButtons s)
     (Some (displayed_for (_pageSizeOptions s) (effective_pageSize s)))
     (page s).
Proof.
  unfold ngOnInit. rewrite update_initialized by reflexivity. reflexivity.
Qed.

(** C6.  When [pageSize] is unset or zero as the derivation runs in
    [ngOnInit], it becomes the first entry of [pageSizeOptions], or 50
    when there are no options; with no options the displayed options are
    then [[50]]. *)
Theorem default_pageSize_at_init (s : t) :
  pageSize s = undefined \/ pageSize s = Some (ofZ 0) ->
  pageSize (ngOnInit s) = Some (hd (ofZ 50) (pageSizeOptions s)) /\
  (pageSizeOptions s = [] ->
     pageSize (ngOnInit s) = Some (ofZ 50) /\
     _displayedPageSizeOptions (ngOnInit s) = Some [ofZ 50]).
Proof.
  intro Unset. rewrite ngOnInit_state.
  cbn [pageSize _pageSize _displayedPageSizeOptions].
  rewrite (effective_pageSize_falsy s Unset). split; [reflexivity|].
  unfold pageSizeOptions. intro Empty. rewrite Empty. split; reflexivity.
Qed.

(** *** The number of pages *)

Lemma Qc_div_this (l p : Qc) : (this (l / p)%Qc == this l / this p)%Q.
Proof.
  unfold Qcdiv, Qcmult, Qcinv. cbn [this Q2Qc].
  now rewrite !Qred_correct.
Qed.



Lemma Qc_pos_is0 (p : Qc) : (0 < p)%Qc -> Qc_is0 p = false.
Proof.
  intro H. apply Qc_is0_false. intro E. subst p.
  now apply (Qclt_not_eq 0%Qc 0%Qc).
Qed.

Lemma Math_ceil_div_fin (l p : Qc) :
  (0 < p)%Qc ->
  Math_ceil (div (Fin l) (Fin p)) = ofZ (Qceiling (this l / this p)).
Proof.
  intro H. cbn [div]. rewrite (Qc_pos_is0 p H). cbn [Math_ceil].
  now rewrite (Qceiling_comp _ _ (Qc_div_this l p)).
Qed.




Lemma getNumberOfPages_finite (s : t) (p l : Qc) :
  pageSize s = Some (Fin p) -> (0 < p)%Qc -> length s = Fin l ->
  getNumberOfPages s = ofZ (Qceiling (this l / this p) - 1).
Proof.
  intros Hp Pos Hl. unfold getNumberOfPages. rewrite Hp, Hl.
  cbn [ToNumber]. rewrite (Math_ceil_div_fin l p Pos). apply ofZ_sub.
Qed.


(** *** Changing the page size *)








(** With no page size set, [startIndex] is [NaN] and the page index falls
    back to [0]. *)
Lemma changePageSize_unset (s : t) (newSize : number) :
  pageSize s = undefined ->
  pageIndex (_changePageSize StringToNumber newSize s) = ofZ 0.
Proof.
  intro U. unfold _changePageSize. cbv zeta. rewrite U.
  assert (E : mul (pageIndex s) (ToNumber undefined) = NaN)
    by (destruct (pageIndex s); reflexivity).
  rewrite E. cbn [div Math_floor or_else truthy].
  unfold _emitPageEvent, set_pageSize, pageIndex.
  cbn [with_page _pageIndex].
  destruct (update_frame (with_pageSize
     (set_pageIndex StringToNumber (VNum (ofZ 0)) s)
     (Some (coerceNumberProperty StringToNumber (VNum newSize)))))
    as (_ & P & _).
  rewrite P. reflexivity.
Qed.

(** *** The displayed options *)

Lemma displayed_for_In (options : list number) (size x : number) :
  In x (displayed_for options size) <-> x = size \/ In x options.
Proof.
  unfold displayed_for. rewrite Array_sort_In.
  destruct (Array_indexOf options size =? -1)%Z eqn:E.
  - rewrite in_app_iff. cbn [In]. intuition congruence.
  - split; [tauto|]. intros [-> | H]; trivial.
    apply Z.eqb_neq in E. apply (indexOf_from_In 0 options size); [lia|].
    exact E.
Qed.

Lemma displayed_for_sorted (options : list number) (size : number) :
  Forall notNaN options -> notNaN size ->
  Sorted num_le (displayed_for options size).
Proof.
  intros Ho Hs. apply Array_sort_sorted.
  destruct (Array_indexOf options size =? -1)%Z; trivial.
  apply Forall_app. split; trivial. now constructor.
Qed.

Lemma effective_pageSize_notNaN (s : t) :
  Forall notNaN (pageSizeOptions s) ->
  (forall p : number, pageSize s = Some p -> notNaN p) ->
  notNaN (effective_pageSize s).
Proof.
  intros Ho Hp. unfold effective_pageSize.
  assert (F : notNaN (hd DEFAULT_PAGE_SIZE (pageSizeOptions s))).
  { destruct (pageSizeOptions s) as [|x l]; cbn [hd].
    - discriminate.
    - now inversion Ho. }
  destruct (pageSize s) as [p|] eqn:E; trivial.
  destruct (truthy p); trivial. now apply Hp.
Qed.

Lemma update_well_formed (s : t) :
  Forall notNaN (pageSizeOptions s) ->
  (forall p : number, pageSize s = Some p -> notNaN p) ->
  (_initialized s = false -> _displayedPageSizeOptions s = None) ->
  well_formed (_updateDisplayedPageSizeOptions s).
Proof.
  intros Ho Hp Hd. destruct (_initialized s) eqn:I.
  - rewrite (update_initialized s I). unfold well_formed.
    cbn [pageSizeOptions pageSize _pageSizeOptions _pageSize _initialized
         _displayedPageSizeOptions].
    repeat split; trivial.
    + intros p E. injection E as <-. now apply effective_pageSize_notNaN.
    + exists (effective_pageSize s). now split.
  - rewrite (update_uninitialized s I). unfold well_formed. rewrite I.
    repeat split; trivial. now apply Hd.
Qed.

(** A change of the page index, the length or the events does not bear on
    the derived options. *)
Lemma well_formed_frame (s s' : t) :
  _initialized s' = _initialized s -> _pageSize s' = _pageSize s ->
  _pageSizeOptions s' = _pageSizeOptions s ->
  _displayedPageSizeOptions s' = _displayedPageSizeOptions s ->
  well_formed s -> well_formed s'.
Proof.
  unfold well_formed, pageSize, pageSizeOptions.
  intros -> -> -> ->. trivial.
Qed.

Lemma set_pageSize_well_formed (v : value) (s : t) :
  well_formed s -> well_formed (set_pageSize StringToNumber v s).
Proof.
  intros (Ho & Hp & Hd). unfold set_pageSize. apply update_well_formed.
  - exact Ho.
  - cbn [with_pageSize pageSize _pageSize]. intros p E. injection E as <-.
    apply coerce_notNaN.
  - cbn [with_pageSize _initialized _displayedPageSizeOptions].
    intro I. now rewrite I in Hd.
Qed.

Lemma run_well_formed (o : operation) (s : t) :
  well_formed s -> well_formed (run StringToNumber o s).
Proof.
  intro W. destruct o as [ | | | | n]; cbn [run].
  - destruct (hasNextPage s) eqn:E.
    + rewrite (nextPage_moves s E). revert W. now apply well_formed_frame.
    + unfold nextPage. now rewrite E.
  - destruct (hasPreviousPage s) eqn:E.
    + rewrite (previousPage_moves s E). revert W.
      now apply well_formed_frame.
    + unfold previousPage. now rewrite E.
  - destruct (hasPreviousPage s) eqn:E.
    + rewrite (firstPage_moves s E). revert W. now apply well_formed_frame.
    + unfold firstPage. now rewrite E.
  - destruct (hasNextPage s) eqn:E.
    + rewrite (lastPage_moves s E). revert W. now apply well_formed_frame.
    + unfold lastPage. now rewrite E.
  - unfold _changePageSize. cbv zeta.
    apply well_formed_frame with
      (s := set_pageSize StringToNumber (VNum n)
              (set_pageIndex StringToNumber
                 (VNum (or_else (Math_floor
                    (div (mul (pageIndex s) (ToNumber (pageSize s))) n))
                    (ofZ 0))) s)); try reflexivity.
    apply set_pageSize_well_formed. revert W.
    now apply well_formed_frame.
Qed.

Lemma receive_well_formed (i : input) (s : t) :
  well_formed s -> well_formed (receive StringToNumber i s).
Proof.
  intro W. destruct i as [v|v|v|a| |o]; cbn [receive].
  - revert W. now apply well_formed_frame.
  - revert W. now apply well_formed_frame.
  - now apply set_pageSize_well_formed.
  - destruct W as (Ho & Hp & Hd). unfold set_pageSizeOptions.
    apply update_well_formed.
    + cbn [with_pageSizeOptions pageSizeOptions _pageSizeOptions].
      apply Forall_forall. intros x Hx. apply in_map_iff in Hx.
      destruct Hx as (w & <- & _). apply coerce_notNaN.
    + exact Hp.
    + cbn [with_pageSizeOptions _initialized _displayedPageSizeOptions].
      intro I. now rewrite I in Hd.
  - destruct W as (Ho & Hp & Hd). unfold ngOnInit.
    apply update_well_formed; trivial.
    cbn [with_initialized _initialized]. discriminate.
  - now apply run_well_formed.
Qed.

Lemma reachable_well_formed (s : t) :
  reachable StringToNumber s -> well_formed s.
Proof.
  induction 1 as [|s i R IH].
  - unfold well_formed. cbn. repeat split.
    + constructor.
    + discriminate.
  - now apply receive_well_formed.
Qed.

(** C5.  In every state an instance can be in: once initialised, the
    displayed options are the ones derived from the current options and
    the current page size (so every assignment of either has been
    followed), they contain the page size, hold the options and nothing
    else, and ascend numerically; before initialisation there are no
    displayed options at all.  With options [[25, 10, 50]] and page size
    [10] the displayed options are [[10, 25, 50]]. *)
Theorem displayed_options_invariant (s : t) :
  reachable StringToNumber s ->
  (_initialized s = true ->
     exists (size : number) (d : list number),
       pageSize s = Some size /\
       _displayedPageSizeOptions s = Some d /\
       d = displayed_for (pageSizeOptions s) size /\
       In size d /\
       Sorted num_le d /\
       (forall x : number, In x d <-> x = size \/ In x (pageSizeOptions s))) /\
  (_initialized s = false -> _displayedPageSizeOptions s = None) /\
  (_initialized s = true ->
   pageSizeOptions s = map ofZ [25; 10; 50]%Z -> pageSize s = Some (ofZ 10) ->
   _displayedPageSizeOptions s = Some (map ofZ [10; 25; 50]%Z)).
Proof.
  intro R. pose proof (reachable_well_formed s R) as W.
  destruct W as (Ho & Hp & Hd). repeat apply conj.
  - intro I. rewrite I in Hd. destruct Hd as (size & Hs & Hdisp).
    exists size, (displayed_for (pageSizeOptions s) size).
    repeat apply conj; trivial.
    + apply displayed_for_In. now left.
    + apply displayed_for_sorted; trivial. now apply Hp.
    + apply displayed_for_In.
  - intro I. now rewrite I in Hd.
  - intros I Eo Es. rewrite I in Hd. destruct Hd as (size & Hs & Hdisp).
    rewrite Hdisp, Eo. rewrite Es in Hs. injection Hs as <-.
    reflexivity.
Qed.

(** *** The range of the page index *)

Lemma inRange_integers (s : t) (i : Z) (l p : Qc) :
  pageIndex s = ofZ i -> length s = Fin l -> pageSize s = Some (Fin p) ->
  (0 < p)%Qc ->
  (inRange s <-> (0 <= i <= Qceiling (this l / this p) - 1)%Z).
Proof.
  intros Hi Hl Hp Pos. unfold inRange.
  rewrite (getNumberOfPages_finite s p l Hp Pos Hl), Hi, !ofZ_le.
  reflexivity.
Qed.






End PaginatorProperties.

(** ** Instances *)



(** C3 at [pageSize = 0]: neither query holds. *)
Lemma hasPage_witness :
  hasPreviousPage (state_of true 3 95 (Some 0%Z) []) = false /\
  hasNextPage (state_of true 3 95 (Some 0%Z) []) = false.
Proof.
  destruct (hasPage_spec (state_of true 3 95 (Some 0%Z) [])) as (_ & _ & D).
  apply D. reflexivity.
Defined.


Lemma offered_sizes_reachable : reachable no_numeric_string offered_sizes.
Proof.
  unfold offered_sizes. repeat apply reachable_step. apply reachable_new.
Qed.

(** C5 on an instance offered [[25, 10, 50]] with page size [10]. *)
Lemma displayed_options_witness :
  _displayedPageSizeOptions offered_sizes = Some (map ofZ [10; 25; 50]%Z).
Proof.
  destruct (displayed_options_invariant no_numeric_string offered_sizes
              offered_sizes_reachable) as (_ & _ & E).
  apply E; reflexivity.
Defined.

(** C6 on the instance as constructed. *)
Lemma default_pageSize_witness :
  pageSize (ngOnInit constructor) = Some (ofZ 50) /\
  _displayedPageSizeOptions (ngOnInit constructor) = Some [ofZ 50].
Proof.
  destruct (default_pageSize_at_init constructor) as [_ E].
  - left. reflexivity.
  - apply E. reflexivity.
Defined.

(** C7: a page index far past the last page is stored as it is. *)
Lemma direct_assignment_witness :
  pageIndex
    (set_pageIndex no_numeric_string (VNum (ofZ 7))
       (configured (ofZ 0) (ofZ 20) (ofZ 10))) = ofZ 7.
Proof.
  destruct (direct_assignment_frame no_numeric_string
              (configured (ofZ 0) (ofZ 20) (ofZ 10)) VUndefined)
    as (_ & _ & N & _).
  destruct (N (ofZ 7)) as [E _].
  - discriminate.
  - exact E.
Defined.

(** C8 on the first of ten pages. *)
Lemma notification_witness :
  page (run no_numeric_string OpNextPage
          (configured (ofZ 0) (ofZ 95) (ofZ 10)))
  = [PageEvent.mk (ofZ 1) (Some (ofZ 10)) (ofZ 95)].
Proof.
  rewrite (notification_spec no_numeric_string OpNextPage
             (configured (ofZ 0) (ofZ 95) (ofZ 10))).
  - reflexivity.
  - intro E. apply (f_equal page) in E. discriminate E.
Defined.



(** C10 on a list holding a number, [undefined] and a string. *)
Lemma pageSizeOptions_witness :
  pageSizeOptions
    (set_pageSizeOptions no_numeric_string
       (AList [VNum (ofZ 25); VUndefined; VStr "ten"]) constructor)
  = [ofZ 25; ofZ 0; ofZ 0].
Proof.
  destruct (pageSizeOptions_assignment no_numeric_string constructor)
    as (_ & _ & L & _).
  rewrite L. reflexivity.
Defined.

(** ** Further properties of the component *)

Section FurtherProperties.

Variable StringToNumber : string -> number.

(** *** The derivation, run again *)

Lemma effective_pageSize_settled (s : t) :
  (if truthy (effective_pageSize s)
   then effective_pageSize s
   else hd DEFAULT_PAGE_SIZE (pageSizeOptions s)) = effective_pageSize s.
Proof.
  unfold effective_pageSize. destruct (pageSize s) as [p|].
  - destruct (truthy p) eqn:T.
    + now rewrite T.
    + now destruct (truthy (hd DEFAULT_PAGE_SIZE (pageSizeOptions s))).
  - now destruct (truthy (hd DEFAULT_PAGE_SIZE (pageSizeOptions s))).
Qed.

Lemma update_twice (s : t) :
  _updateDisplayedPageSizeOptions (_updateDisplayedPageSizeOptions s) =
  _updateDisplayedPageSizeOptions s.
Proof.
  destruct (_initialized s) eqn:I.
  - rewrite (update_initialized s I).
    rewrite update_initialized by reflexivity.
    cbn [_pageIndex _length _pageSizeOptions _hidePageSize
         _showFirstLastButtons page].
    assert (E : effective_pageSize
                  (mk true (_pageIndex s) (_length s)
                     (Some (effective_pageSize s)) (_pageSizeOptions s)
                     (_hidePageSize s) (_showFirstLastButtons s)
                     (Some (displayed_for (_pageSizeOptions s)
                              (effective_pageSize s)))
                     (page s)) = effective_pageSize s).
    { apply (effective_pageSize_settled s). }
    now rewrite E.
  - now rewrite !(update_uninitialized s I).
Qed.

(** X1.  Running the derivation of the displayed options a second time
    changes nothing, so initialising twice, or assigning the same page
    size twice, is the same as doing it once. *)
Theorem derivation_idempotent (s : t) (v : value) :
  _updateDisplayedPageSizeOptions (_updateDisplayedPageSizeOptions s) =
    _updateDisplayedPageSizeOptions s /\
  ngOnInit (ngOnInit s) = ngOnInit s /\
  set_pageSize StringToNumber v (set_pageSize StringToNumber v s) =
    set_pageSize StringToNumber v s.
Proof.
  split; [apply update_twice|]. split.
  - unfold ngOnInit.
    destruct (update_frame (with_initialized s true)) as (I & _).
    set (u := _updateDisplayedPageSizeOptions (with_initialized s true)) in *.
    assert (E : with_initialized u true = u).
    { destruct u. cbn [_initialized with_initialized] in *.
      now rewrite I. }
    rewrite E. apply update_twice.
  - unfold set_pageSize. set (c := coerceNumberProperty StringToNumber v).
    destruct (_initialized s) eqn:I.
    + rewrite (update_initialized (with_pageSize s (Some c)))
        by exact I.
      rewrite update_initialized by reflexivity. reflexivity.
    + rewrite (update_uninitialized (with_pageSize s (Some c)))
        by exact I.
      rewrite update_uninitialized by exact I. reflexivity.
Qed.

(** X2.  Assigning [pageSize] or [pageSizeOptions], and [ngOnInit], emit
    no event and leave the page index and the length as they are: the
    page index is not brought back into range when the page size under
    it changes. *)
Theorem derived_setters_frame (s : t) (v : value) (a : array_value) :
  (pageIndex (set_pageSize StringToNumber v s) = pageIndex s /\
   length (set_pageSize StringToNumber v s) = length s /\
   page (set_pageSize StringToNumber v s) = page s) /\
  (pageIndex (set_pageSizeOptions StringToNumber a s) = pageIndex s /\
   length (set_pageSizeOptions StringToNumber a s) = length s /\
   page (set_pageSizeOptions StringToNumber a s) = page s) /\
  (pageIndex (ngOnInit s) = pageIndex s /\
   length (ngOnInit s) = length s /\
   page (ngOnInit s) = page s).
Proof.
  unfold set_pageSize, set_pageSizeOptions, ngOnInit, pageIndex, length.
  repeat apply conj;
    match goal with
    | |- _ (_updateDisplayedPageSizeOptions ?x) = _ =>
        destruct (update_frame x) as (_ & Hi & Hl & _ & _ & _ & Hp)
    end; assumption.
Qed.

(** *** Reaching the ends *)

Lemma getNumberOfPages_moved_to (s : t) (i : number) :
  getNumberOfPages (moved_to s i) = getNumberOfPages s.
Proof. reflexivity. Qed.

Lemma lt_irrefl (x : number) : lt x x = false.
Proof.
  destruct (lt x x) eqn:E; trivial.
  apply lt_spec in E. elim (num_lt_irrefl x E).
Qed.

Lemma lastPage_at_end (s : t) :
  hasNextPage (lastPage StringToNumber s) = false.
Proof.
  destruct (hasNextPage s) eqn:E.
  - rewrite (lastPage_moves StringToNumber s E). unfold hasNextPage.
    cbv zeta. rewrite getNumberOfPages_moved_to.
    cbn [moved_to pageIndex _pageIndex]. now rewrite lt_irrefl.
  - unfold lastPage. now rewrite E.
Qed.

Lemma firstPage_at_start (s : t) :
  hasPreviousPage (firstPage StringToNumber s) = false.
Proof.
  destruct (hasPreviousPage s) eqn:E.
  - rewrite (firstPage_moves StringToNumber s E). reflexivity.
  - unfold firstPage. now rewrite E.
Qed.

(** X3.  After [firstPage] there is no previous page and after
    [lastPage] there is no next page, from whatever state; calling
    either a second time does nothing more (no move, no event). *)
Theorem ends_are_reached (s : t) :
  hasPreviousPage (firstPage StringToNumber s) = false /\
  hasNextPage (lastPage StringToNumber s) = false /\
  firstPage StringToNumber (firstPage StringToNumber s) =
    firstPage StringToNumber s /\
  lastPage StringToNumber (lastPage StringToNumber s) =
    lastPage StringToNumber s.
Proof.
  pose proof (firstPage_at_start s) as F.
  pose proof (lastPage_at_end s) as L.
  repeat apply conj; trivial.
  - unfold firstPage at 1. now rewrite F.
  - unfold lastPage at 1. now rewrite L.
Qed.

(** *** Before a page size is set *)

Lemma getNumberOfPages_unset (s : t) :
  pageSize s = undefined -> getNumberOfPages s = NaN.
Proof.
  intro U. unfold getNumberOfPages. rewrite U.
  now destruct (length s).
Qed.

(** X4.  While [pageSize] is undefined the number of pages is [NaN]:
    there is never a next page, [nextPage] and [lastPage] do nothing,
    yet [previousPage] is still allowed from any page index [>= 1]. *)
Theorem unset_pageSize_navigation (s : t) :
  pageSize s = undefined ->
  getNumberOfPages s = NaN /\
  hasNextPage s = false /\
  nextPage StringToNumber s = s /\
  lastPage StringToNumber s = s /\
  (hasPreviousPage s = true <-> num_le (ofZ 1) (pageIndex s)).
Proof.
  intro U. pose proof (getNumberOfPages_unset s U) as N.
  assert (H : hasNextPage s = false).
  { unfold hasNextPage. cbv zeta. rewrite N.
    now destruct (pageIndex s). }
  repeat apply conj; trivial.
  - unfold nextPage. now rewrite H.
  - unfold lastPage. now rewrite H.
  - intro P. now apply hasPreviousPage_iff in P.
  - intro P. apply hasPreviousPage_iff. split; trivial.
    rewrite U. discriminate.
Qed.

(** *** What a false query means *)

(** X5.  The comment in [firstPage], "hasPreviousPage being false implies
    at the start", holds for a page index that is a non-negative integer
    once the page size is not zero: then there is no previous page
    exactly at index 0. *)
Theorem no_previous_means_start (s : t) (i : Z) :
  pageIndex s = ofZ i -> (0 <= i)%Z -> pageSize s <> Some (ofZ 0) ->
  (hasPreviousPage s = false <-> pageIndex s = ofZ 0).
Proof.
  intros Hi Nonneg NZ. split.
  - intro H. destruct (Z.eq_dec i 0) as [-> | Pos]; trivial.
    assert (T : hasPreviousPage s = true).
    { apply hasPreviousPage_iff. split; trivial.
      rewrite Hi. apply ofZ_le. lia. }
    congruence.
  - intro E. unfold hasPreviousPage. now rewrite E.
Qed.

(** X6.  The comment in [lastPage], "hasNextPage being false implies at
    the end", holds for a page index that is an integer within range,
    with a finite length and a finite positive page size: then there is
    no next page exactly at index [getNumberOfPages()]. *)
Theorem no_next_means_end (s : t) (i : Z) (l p : Qc) :
  pageIndex s = ofZ i -> length s = Fin l -> pageSize s = Some (Fin p) ->
  (0 < p)%Qc -> inRange s ->
  (hasNextPage s = false <-> pageIndex s = getNumberOfPages s).
Proof.
  intros Hi Hl Hp Pos R.
  pose proof (proj1 (inRange_integers s i l p Hi Hl Hp Pos) R) as Ri.
  pose proof (getNumberOfPages_finite s p l Hp Pos Hl) as N.
  split.
  - intro H. rewrite N, Hi. f_equal.
    destruct (Z.eq_dec i (Qceiling (this l / this p) - 1)) as [E | D];
      trivial.
    assert (T : hasNextPage s = true).
    { apply hasNextPage_iff. split.
      - rewrite N, Hi. apply ofZ_lt. lia.
      - rewrite Hp. intro Z. injection Z as Z. subst p.
        now apply (Qclt_not_eq 0%Qc 0%Qc). }
    congruence.
  - intro E. unfold hasNextPage. cbv zeta. rewrite <- E.
    now rewrite lt_irrefl.
Qed.

(** *** Going forth and back *)







(** *** Walking through the pages *)








(** *** Pages and items *)



(** *** More on changing the page size *)











(** *** The page size once initialised *)

Lemma falsy_is_zero (x : number) : notNaN x -> truthy x = false -> x = ofZ 0.
Proof.
  unfold notNaN. destruct x as [|b|q]; cbn [truthy]; try congruence.
  rewrite negb_false_iff. intros _ Z. apply Qc_is0_true in Z. now subst q.
Qed.

Lemma update_resolved (s : t) :
  _initialized s = true ->
  pageSize_resolved (_updateDisplayedPageSizeOptions s).
Proof.
  intro I. rewrite (update_initialized s I). unfold pageSize_resolved.
  cbn [pageSize pageSizeOptions _pageSize _pageSizeOptions].
  exists (effective_pageSize s). split; trivial.
  unfold effective_pageSize, pageSizeOptions.
  assert (F : truthy (hd DEFAULT_PAGE_SIZE (_pageSizeOptions s)) = false ->
              exists rest : list number,
                _pageSizeOptions s
                = hd DEFAULT_PAGE_SIZE (_pageSizeOptions s) :: rest).
  { destruct (_pageSizeOptions s) as [|x rest]; cbn [hd].
    - discriminate.
    - intros _. now exists rest. }
  destruct (pageSize s) as [p|]; trivial.
  destruct (truthy p) eqn:T; trivial. congruence.
Qed.

Lemma resolved_frame (s s' : t) :
  _initialized s' = _initialized s -> _pageSize s' = _pageSize s ->
  _pageSizeOptions s' = _pageSizeOptions s ->
  (_initialized s = true -> pageSize_resolved s) ->
  (_initialized s' = true -> pageSize_resolved s').
Proof.
  unfold pageSize_resolved, pageSize, pageSizeOptions.
  intros -> -> ->. trivial.
Qed.

Lemma update_keeps_resolved (s : t) :
  _initialized (_updateDisplayedPageSizeOptions s) = true ->
  pageSize_resolved (_updateDisplayedPageSizeOptions s).
Proof.
  destruct (update_frame s) as (I & _). rewrite I.
  apply update_resolved.
Qed.

Lemma run_resolved (o : operation) (s : t) :
  (_initialized s = true -> pageSize_resolved s) ->
  (_initialized (run StringToNumber o s) = true ->
   pageSize_resolved (run StringToNumber o s)).
Proof.
  intro R. destruct o as [ | | | | n]; cbn [run].
  - destruct (hasNextPage s) eqn:E.
    + rewrite (nextPage_moves StringToNumber s E). revert R.
      now apply resolved_frame.
    + unfold nextPage. now rewrite E.
  - destruct (hasPreviousPage s) eqn:E.
    + rewrite (previousPage_moves StringToNumber s E). revert R.
      now apply resolved_frame.
    + unfold previousPage. now rewrite E.
  - destruct (hasPreviousPage s) eqn:E.
    + rewrite (firstPage_moves StringToNumber s E). revert R.
      now apply resolved_frame.
    + unfold firstPage. now rewrite E.
  - destruct (hasNextPage s) eqn:E.
    + rewrite (lastPage_moves StringToNumber s E). revert R.
      now apply resolved_frame.
    + unfold lastPage. now rewrite E.
  - unfold _changePageSize. cbv zeta. unfold _emitPageEvent, set_pageSize.
    match goal with
    | |- _initialized (with_page ?u _) = true -> _ =>
        apply (resolved_frame u); try reflexivity
    end.
    apply update_keeps_resolved.
Qed.

Lemma reachable_resolved (s : t) :
  reachable StringToNumber s -> _initialized s = true ->
  pageSize_resolved s.
Proof.
  induction 1 as [|s i R IH].
  - discriminate.
  - destruct i as [v|v|v|a| |o]; cbn [receive].
    + revert IH. now apply resolved_frame.
    + revert IH. now apply resolved_frame.
    + apply update_keeps_resolved.
    + apply update_keeps_resolved.
    + apply update_keeps_resolved.
    + now apply run_resolved.
Qed.

(** X15.  In every state an initialised instance can be in, the page size
    is a proper number, and it is [0] only if [0] is the first of the
    options: a falsy page size is always replaced by the first option or
    by 50.  So unless the first option is [0], pagination is never in
    its disabled state after initialisation. *)
Theorem initialised_pageSize (s : t) :
  reachable StringToNumber s -> _initialized s = true ->
  exists size : number,
    pageSize s = Some size /\ notNaN size /\
    (size = ofZ 0 ->
     exists rest : list number, pageSizeOptions s = ofZ 0 :: rest) /\
    (hd (ofZ 50) (pageSizeOptions s) <> ofZ 0 ->
     pageSize s <> Some (ofZ 0)).
Proof.
  intros R I.
  destruct (reachable_resolved s R I) as (size & Hs & Falsy).
  destruct (reachable_well_formed StringToNumber s R) as (_ & Hp & _).
  assert (Z : size = ofZ 0 ->
              exists rest : list number, pageSizeOptions s = ofZ 0 :: rest).
  { intros ->. now apply Falsy. }
  exists size. repeat apply conj; trivial.
  - now apply Hp.
  - intros First E. rewrite Hs in E. injection E as E.
    destruct (Z E) as (rest & Ho). rewrite Ho in First. now apply First.
Qed.

(** *** The displayed options as a collection *)

Lemma indexOf_from_of_In (i : Z) (l : list number) (x : number) :
  (0 <= i)%Z -> notNaN x -> In x l -> (indexOf_from i l x <> -1)%Z.
Proof.
  intros Hi Nx. revert i Hi.
  induction l as [|y l IH]; intros i Hi Hin; cbn [indexOf_from].
  - destruct Hin.
  - destruct (strict_eq y x) eqn:E; [lia|].
    destruct Hin as [-> | Hin].
    + assert (T : strict_eq x x = true)
        by (apply strict_eq_spec; now split).
      congruence.
    + apply IH; [lia | exact Hin].
Qed.

Lemma Array_indexOf_missing (l : list number) (x : number) :
  notNaN x -> ((Array_indexOf l x =? -1)%Z = true <-> ~ In x l).
Proof.
  intro Nx. rewrite Z.eqb_eq. unfold Array_indexOf. split.
  - intros E Hin.
    now apply (indexOf_from_of_In 0 l x (Z.le_refl 0) Nx Hin).
  - intro Out.
    destruct (Z.eq_dec (indexOf_from 0 l x) (-1)) as [E | D]; trivial.
    elim Out. now apply (indexOf_from_In 0 l x (Z.le_refl 0)).
Qed.

(** X16.  In every state an initialised instance can be in, the displayed
    options are a rearrangement of the configured options, with the page
    size added as one more entry exactly when no option equals it;
    options configured more than once stay more than once. *)
Theorem displayed_options_contents (s : t) :
  reachable StringToNumber s -> _initialized s = true ->
  exists (size : number) (d : list number),
    pageSize s = Some size /\
    _displayedPageSizeOptions s = Some d /\
    (In size (pageSizeOptions s) -> Permutation d (pageSizeOptions s)) /\
    (~ In size (pageSizeOptions s) ->
     Permutation d (pageSizeOptions s ++ [size])).
Proof.
  intros R I.
  destruct (reachable_well_formed StringToNumber s R) as (_ & Hp & Hd).
  rewrite I in Hd. destruct Hd as (size & Hs & Hdisp).
  pose proof (Hp size Hs) as Nsize.
  exists size, (displayed_for (pageSizeOptions s) size).
  repeat apply conj; trivial.
  - intro Hin. unfold displayed_for.
    destruct (Array_indexOf (pageSizeOptions s) size =? -1)%Z eqn:E.
    + apply (Array_indexOf_missing _ _ Nsize) in E. contradiction.
    + apply Array_sort_perm.
  - intro Out. unfold displayed_for.
    rewrite (proj2 (Array_indexOf_missing _ _ Nsize) Out).
    apply Array_sort_perm.
Qed.

(** *** The order of the options *)

Lemma num_le_antisym (x y : number) : num_le x y -> num_le y x -> x = y.
Proof.
  intros [L1 | [E1 _]] [L2 | [E2 _]]; try congruence.
  elim (num_lt_irrefl x). now apply num_lt_trans with y.
Qed.

Lemma sorted_rearrangement_unique (l l' : list number) :
  StronglySorted num_le l -> StronglySorted num_le l' ->
  Permutation l l' -> l = l'.
Proof.
  intros S. revert l'. induction S as [|a l S IH Ha]; intros l' S' P.
  - apply Permutation_nil in P. now subst.
  - destruct S' as [|b l' S' Hb].
    + apply Permutation_sym, Permutation_nil in P. discriminate.
    + assert (E : a = b).
      { assert (Ia : In a (b :: l'))
          by (apply (Permutation_in _ P); now left).
        assert (Ib : In b (a :: l))
          by (apply (Permutation_in _ (Permutation_sym P)); now left).
        destruct Ia as [-> | Ia]; trivial.
        destruct Ib as [-> | Ib]; trivial.
        apply num_le_antisym.
        - exact (proj1 (Forall_forall _ _) Ha b Ib).
        - exact (proj1 (Forall_forall _ _) Hb a Ia). }
      subst b. f_equal. apply IH; trivial.
      now apply Permutation_cons_inv with a.
Qed.

Lemma Array_sort_rearranged (l l' : list number) :
  Forall notNaN l -> Permutation l l' ->
  Array_sort numeric_order l = Array_sort numeric_order l'.
Proof.
  intros N P.
  assert (N' : Forall notNaN l').
  { apply Forall_forall. intros x Hx.
    apply (proj1 (Forall_forall _ _) N x).
    apply (Permutation_in _ (Permutation_sym P) Hx). }
  apply sorted_rearrangement_unique.
  - apply Sorted_StronglySorted; [exact num_le_trans|].
    now apply Array_sort_sorted.
  - apply Sorted_StronglySorted; [exact num_le_trans|].
    now apply Array_sort_sorted.
  - apply perm_trans with l; [apply Array_sort_perm|].
    apply perm_trans with l'; trivial.
    apply Permutation_sym, Array_sort_perm.
Qed.

Lemma displayed_for_rearranged (l l' : list number) (size : number) :
  Forall notNaN l -> notNaN size -> Permutation l l' ->
  displayed_for l size = displayed_for l' size.
Proof.
  intros N Ns P. unfold displayed_for.
  assert (Same : (Array_indexOf l size =? -1)%Z
                 = (Array_indexOf l' size =? -1)%Z).
  { destruct (Array_indexOf l size =? -1)%Z eqn:E;
      destruct (Array_indexOf l' size =? -1)%Z eqn:E'; trivial.
    - apply (Array_indexOf_missing _ _ Ns) in E.
      assert (Out : ~ In size l').
      { intro H. apply E. apply (Permutation_in _ (Permutation_sym P) H). }
      apply (Array_indexOf_missing _ _ Ns) in Out. congruence.
    - apply (Array_indexOf_missing _ _ Ns) in E'.
      assert (Out : ~ In size l).
      { intro H. apply E'. apply (Permutation_in _ P H). }
      apply (Array_indexOf_missing _ _ Ns) in Out. congruence. }
  rewrite <- Same. destruct (Array_indexOf l size =? -1)%Z.
  - apply Array_sort_rearranged.
    + apply Forall_app. split; trivial. now constructor.
    + now apply Permutation_app_tail.
  - now apply Array_sort_rearranged.
Qed.

Lemma displayed_for_member (l : list number) (x : number) :
  notNaN x -> In x l -> displayed_for l x = Array_sort numeric_order l.
Proof.
  intros Nx Hin. unfold displayed_for.
  destruct (Array_indexOf l x =? -1)%Z eqn:E; trivial.
  apply (Array_indexOf_missing _ _ Nx) in E. contradiction.
Qed.

Lemma set_pageSizeOptions_displayed (a : list value) (s : t) :
  _initialized s = true ->
  _displayedPageSizeOptions
    (set_pageSizeOptions StringToNumber (AList a) s) =
  Some (displayed_for (map (coerceNumberProperty StringToNumber) a)
          (effective_pageSize
             (with_pageSizeOptions s
                (map (coerceNumberProperty StringToNumber) a)))).
Proof.
  intro I. unfold set_pageSizeOptions.
  rewrite update_initialized by exact I. reflexivity.
Qed.

(** X17.  On an initialised instance the displayed options do not depend
    on the order in which the options are assigned: two lists that are
    rearrangements of each other give the same displayed options (the
    page size taken by default, the first option, may differ). *)
Theorem displayed_options_order_free (s : t) (a a' : list value) :
  reachable StringToNumber s -> _initialized s = true ->
  Permutation a a' ->
  _displayedPageSizeOptions
    (set_pageSizeOptions StringToNumber (AList a) s) =
  _displayedPageSizeOptions
    (set_pageSizeOptions StringToNumber (AList a') s).
Proof.
  intros R I P.
  destruct (reachable_well_formed StringToNumber s R) as (_ & Hp & _).
  rewrite !set_pageSizeOptions_displayed by exact I. f_equal.
  set (l := map (coerceNumberProperty StringToNumber) a).
  set (l' := map (coerceNumberProperty StringToNumber) a').
  assert (Pl : Permutation l l') by (now apply Permutation_map).
  assert (N : forall b : list value,
            Forall notNaN (map (coerceNumberProperty StringToNumber) b)).
  { intro b. apply Forall_forall. intros x Hx. apply in_map_iff in Hx.
    destruct Hx as (v & <- & _). apply coerce_notNaN. }
  pose proof (N a) as Nl. pose proof (N a') as Nl'. fold l in Nl.
  fold l' in Nl'.
  unfold effective_pageSize, pageSize, pageSizeOptions.
  cbn [with_pageSizeOptions _pageSize _pageSizeOptions].
  assert (Fallback :
    displayed_for l (hd DEFAULT_PAGE_SIZE l)
    = displayed_for l' (hd DEFAULT_PAGE_SIZE l')).
  { destruct l as [|x r], l' as [|x' r']; cbn [hd].
    - reflexivity.
    - apply Permutation_nil in Pl. discriminate.
    - apply Permutation_sym, Permutation_nil in Pl. discriminate.
    - rewrite !displayed_for_member.
      + now apply Array_sort_rearranged.
      + now inversion Nl'.
      + now left.
      + now inversion Nl.
      + now left. }
  destruct (_pageSize s) as [p|] eqn:E; trivial.
  destruct (truthy p); trivial.
  apply displayed_for_rearranged; trivial. now apply Hp.
Qed.

(** *** The event log *)

Lemma run_events (o : operation) (s : t) :
  page (run StringToNumber o s) = page s \/
  page (run StringToNumber o s) =
    page s ++ [snapshot (run StringToNumber o s)].
Proof.
  destruct o as [ | | | | n]; cbn [run].
  - destruct (hasNextPage s) eqn:E.
    + right. rewrite (nextPage_moves StringToNumber s E). reflexivity.
    + left. unfold nextPage. now rewrite E.
  - destruct (hasPreviousPage s) eqn:E.
    + right. rewrite (previousPage_moves StringToNumber s E). reflexivity.
    + left. unfold previousPage. now rewrite E.
  - destruct (hasPreviousPage s) eqn:E.
    + right. rewrite (firstPage_moves StringToNumber s E). reflexivity.
    + left. unfold firstPage. now rewrite E.
  - destruct (hasNextPage s) eqn:E.
    + right. rewrite (lastPage_moves StringToNumber s E). reflexivity.
    + left. unfold lastPage. now rewrite E.
  - right. apply changePageSize_emits.
Qed.

(** X18.  Whatever the host does with an instance, the events emitted so
    far stay as they are and in their order: an input either leaves the
    log alone (every setter and [ngOnInit] do) or appends one event, the
    snapshot of the state it ends in. *)
Theorem event_log_grows (i : input) (s : t) :
  (page (receive StringToNumber i s) = page s \/
   page (receive StringToNumber i s) =
     page s ++ [snapshot (receive StringToNumber i s)]) /\
  ((forall o : operation, i <> Operation o) ->
     page (receive StringToNumber i s) = page s).
Proof.
  assert (U : forall x : t, page (_updateDisplayedPageSizeOptions x) = page x).
  { intro x. now destruct (update_frame x) as (_ & _ & _ & _ & _ & _ & P). }
  destruct i as [v|v|v|a| |o]; cbn [receive].
  - split; [left|]; reflexivity.
  - split; [left|]; reflexivity.
  - unfold set_pageSize. rewrite U. split; [left|]; reflexivity.
  - unfold set_pageSizeOptions. rewrite U. split; [left|]; reflexivity.
  - unfold ngOnInit. rewrite U. split; [left|]; reflexivity.
  - split; [apply run_events|]. intro D. now elim (D o).
Qed.

(** *** Assigning a page size that is falsy *)

(** X19.  Once the component is initialised, assigning a page size that
    coerces to [0] ([0], [NaN], [null], [undefined], a non-numeric
    string) does not store [0]: the page size becomes the first option,
    or 50 when there is none, and the displayed options follow.  Before
    initialisation the [0] is stored as it is. *)
Theorem set_pageSize_falsy (s : t) (v : value) :
  coerceNumberProperty StringToNumber v = ofZ 0 ->
  (_initialized s = true ->
     pageSize (set_pageSize StringToNumber v s) =
       Some (hd (ofZ 50) (pageSizeOptions s)) /\
     _displayedPageSizeOptions (set_pageSize StringToNumber v s) =
       Some (displayed_for (pageSizeOptions s)
               (hd (ofZ 50) (pageSizeOptions s)))) /\
  (_initialized s = false ->
     pageSize (set_pageSize StringToNumber v s) = Some (ofZ 0) /\
     _displayedPageSizeOptions (set_pageSize StringToNumber v s) =
       _displayedPageSizeOptions s).
Proof.
  intro Z. unfold set_pageSize. rewrite Z. split; intro I.
  - rewrite update_initialized by exact I. split; reflexivity.
  - rewrite update_uninitialized by exact I. split; reflexivity.
Qed.

End FurtherProperties.

(** ** Further instances *)

(** X4 on an instance given page index 3 and no page size. *)
Lemma unset_pageSize_witness :
  hasNextPage
    (set_pageIndex no_numeric_string (VNum (ofZ 3)) constructor) = false /\
  hasPreviousPage
    (set_pageIndex no_numeric_string (VNum (ofZ 3)) constructor) = true.
Proof.
  destruct (unset_pageSize_navigation no_numeric_string
              (set_pageIndex no_numeric_string (VNum (ofZ 3)) constructor))
    as (_ & N & _ & _ & P).
  - reflexivity.
  - split; [exact N|]. apply P. apply ofZ_le. lia.
Defined.

(** X5 on the first of ten pages. *)
Lemma no_previous_witness :
  hasPreviousPage (configured (ofZ 0) (ofZ 95) (ofZ 10)) = false.
Proof.
  apply (no_previous_means_start (configured (ofZ 0) (ofZ 95) (ofZ 10)) 0).
  - reflexivity.
  - lia.
  - discriminate.
  - reflexivity.
Defined.

(** X6 on the last of ten pages. *)
Lemma no_next_witness :
  hasNextPage (configured (ofZ 9) (ofZ 95) (ofZ 10)) = false.
Proof.
  apply (no_next_means_end (configured (ofZ 9) (ofZ 95) (ofZ 10)) 9
           (Q2Qc (inject_Z 95)) (Q2Qc (inject_Z 10))).
  - reflexivity.
  - reflexivity.
  - reflexivity.
  - reflexivity.
  - split; apply ge_spec; reflexivity.
  - reflexivity.
Defined.









(** X15 on the instance offered [[25, 10, 50]]. *)
Lemma initialised_pageSize_witness :
  pageSize offered_sizes <> Some (ofZ 0).
Proof.
  destruct (initialised_pageSize no_numeric_string offered_sizes
              offered_sizes_reachable eq_refl) as (size & _ & _ & _ & NZ).
  apply NZ. discriminate.
Defined.

(** X16 on the instance offered [[25, 10, 50]], whose page size 10 is
    one of the options. *)
Lemma displayed_contents_witness :
  exists d : list number,
    _displayedPageSizeOptions offered_sizes = Some d /\
    Permutation d (map ofZ [25; 10; 50]%Z).
Proof.
  destruct (displayed_options_contents no_numeric_string offered_sizes
              offered_sizes_reachable eq_refl)
    as (size & d & Hs & Hd & Member & _).
  exists d. split; [exact Hd|]. apply Member.
  injection Hs as <-. right. left. reflexivity.
Defined.

(** X17: offered [[50, 25]] or [[25, 50]], the same options are
    displayed. *)
Lemma order_free_witness :
  _displayedPageSizeOptions
    (set_pageSizeOptions no_numeric_string
       (AList [VNum (ofZ 50); VNum (ofZ 25)]) offered_sizes) =
  _displayedPageSizeOptions
    (set_pageSizeOptions no_numeric_string
       (AList [VNum (ofZ 25); VNum (ofZ 50)]) offered_sizes).
Proof.
  apply (displayed_options_order_free no_numeric_string offered_sizes).
  - exact offered_sizes_reachable.
  - reflexivity.
  - apply perm_swap.
Defined.

(** X19: assigning [0] to the initialised instance offered
    [[25, 10, 50]] sets the page size to 25. *)
Lemma set_pageSize_falsy_witness :
  pageSize (set_pageSize no_numeric_string (VNum (ofZ 0)) offered_sizes)
  = Some (ofZ 25).
Proof.
  destruct (set_pageSize_falsy no_numeric_string offered_sizes
              (VNum (ofZ 0))) as [Init _].
  - reflexivity.
  - destruct (Init eq_refl) as [E _]. exact E.
Defined.
